(** * ECR image-scan-findings exporter: a model of [main.go] and its properties

    The exporter polls the ECR [DescribeImageScanFindings] API, flattens the
    findings into [findingsInfo] records and republishes them as samples of
    one Prometheus gauge vector.  This file embeds [main.go] function by
    function and states what the program does about pagination, attribute
    extraction, the refresh of the gauge vector and the interval setting. *)

From Stdlib Require Import ZArith Lia Ascii String.
From stdpp Require Import gmap strings list fin_maps.

Open Scope string_scope.
Open Scope Z_scope.

#[local] Set Warnings "-clear-no-such-hyp".

(** ** Go values the program handles *)

(** A Go [error] value.  [fmt.Errorf] with a [%w] verb keeps the wrapped
    error (what [errors.Unwrap] returns) next to its format string. *)
Inductive error : Type :=
| errorString (s : string)
| NumError (Func Num : string) (Err : error)
| wrapError (format : string) (err : error).

Definition Unwrap (e : error) : option error :=
  match e with
  | wrapError _ err => Some err
  | NumError _ _ err => Some err
  | errorString _ => None
  end.

Definition Errorf (format : string) (err : error) : error :=
  wrapError format err.

(** How a call ends: it returns, it panics, or it is still waiting for the
    upstream service. *)
Inductive exec (A : Type) : Type :=
| Done (a : A)
| Blocked
| Panic (msg : string).
Arguments Done {A} a.
Arguments Blocked {A}.
Arguments Panic {A} msg.

(** ** [strconv.Atoi]

    Go's [strconv.Atoi] on a target whose [int] is 64 bits wide: an optional
    sign, then decimal digits and nothing else; a syntax error otherwise
    and a range error outside of [-2^63, 2^63 - 1]. *)

Module strconv.

Definition ErrSyntax : error := errorString "invalid syntax".
Definition ErrRange : error := errorString "value out of range".

Definition digit (c : Ascii.ascii) : option Z :=
  let n := Z.of_N (Ascii.N_of_ascii c) in
  if (48 <=? n) && (n <=? 57) then Some (n - 48) else None.

Fixpoint digits (s : string) (n : Z) : option Z :=
  match s with
  | EmptyString => Some n
  | String c s' =>
      match digit c with
      | Some d => digits s' (n * 10 + d)
      | None => None
      end
  end.

Definition is_sign (c : Ascii.ascii) : bool :=
  Ascii.eqb c "-"%char || Ascii.eqb c "+"%char.

(** The numeral without its sign, and whether the sign was a minus. *)
Definition split_sign (s : string) : bool * string :=
  match s with
  | String c s' => if is_sign c then (Ascii.eqb c "-"%char, s') else (false, s)
  | EmptyString => (false, s)
  end.

Definition cutoff : Z := 2 ^ 63.

Definition Atoi (s : string) : Z * option error :=
  let (neg, body) := split_sign s in
  match body with
  | EmptyString => (0, Some (NumError "Atoi" s ErrSyntax))
  | _ =>
      match digits body 0 with
      | None => (0, Some (NumError "Atoi" s ErrSyntax))
      | Some un =>
          if negb neg && (cutoff <=? un) then
            (cutoff - 1, Some (NumError "Atoi" s ErrRange))
          else if neg && (cutoff <? un) then
            (- cutoff, Some (NumError "Atoi" s ErrRange))
          else (if neg then - un else un, None)
      end
  end.

(** An optionally signed, non-empty run of decimal digits. *)
Definition numeral (s : string) : bool :=
  match snd (split_sign s) with
  | EmptyString => false
  | body => bool_decide (is_Some (digits body 0))
  end.

End strconv.

(** ** [time.Duration] and [time.NewTicker] *)

Module time.

(** The value an [int64] holds after an arithmetic result [z]. *)
Definition int64 (z : Z) : Z := (z + 2 ^ 63) mod 2 ^ 64 - 2 ^ 63.

Definition Second : Z := 1000000000.

(** [time.Duration(n) * time.Second] *)
Definition seconds (n : Z) : Z := int64 (int64 n * Second).

(** [time.NewTicker d]: a ticker of period [d]; the call panics
    ("non-positive interval for NewTicker"), [None] here, unless [d] is
    positive. *)
Definition NewTicker (d : Z) : option Z :=
  if d <=? 0 then None else Some d.

End time.

(** ** The ECR client's types *)

Module ecr.

(** Modelled from the spec: the SDK's [Attribute], [ImageScanFinding] and
    the input and output of [DescribeImageScanFindings], which the source
    imports; a RawFinding has a name, a severity and a sequence of
    key/value attributes, a page has findings and an optional cursor. *)
Record Attribute : Type := { Key : string; Value : string }.

Record ImageScanFinding : Type := {
  Name : option string;
  Severity : option string;
  Attributes : list Attribute
}.

Record DescribeImageScanFindingsInput : Type := {
  ImageTag : string;
  RepositoryName : string;
  InputNextToken : option string
}.

Definition SetNextToken (tok : string) (input : DescribeImageScanFindingsInput)
  : DescribeImageScanFindingsInput :=
  {| ImageTag := ImageTag input;
     RepositoryName := RepositoryName input;
     InputNextToken := Some tok |}.

Record DescribeImageScanFindingsOutput : Type := {
  Findings : list ImageScanFinding;
  NextToken : option string
}.

(** What one call of [svc.DescribeImageScanFindings] comes back with. *)
Inductive response : Type :=
| ok (out : DescribeImageScanFindingsOutput)
| failed (err : error).

End ecr.

Module aws.
(** [aws.StringValue]: the string behind the pointer, empty for nil. *)
Definition StringValue (p : option string) : string := default "" p.
End aws.

(** ** The gauge vector *)

Module prometheus.

(** The children of a [GaugeVec], keyed by their label values in the order
    of the vector's label names.  A gauge holds a float64; the program
    only ever stores 0 (a fresh child) and 1, kept here as integers. *)
Abbreviation metrics := (gmap (list string) Z).

(** [prometheus.Labels] is a Go map from label name to label value. *)
Abbreviation Labels := (gmap string string).

Definition Reset (m : metrics) : metrics := ∅.

(** The label values [With] looks a child up by: one per label name,
    and no label besides. *)
Definition values (names : list string) (labels : Labels) : option (list string) :=
  if decide (size labels = length names)
  then mapM (λ n, labels !! n) names
  else None.

(** [vec.With(labels)]: the child for these labels, created at 0 when the
    vector has none; panics on labels that do not fit the vector. *)
Definition With (names : list string) (labels : Labels) (m : metrics)
  : exec (list string * metrics) :=
  match values names labels with
  | None => Panic "inconsistent label cardinality"
  | Some vs =>
      match m !! vs with
      | Some _ => Done (vs, m)
      | None => Done (vs, <[vs := 0]> m)
      end
  end.

(** [gauge.Set(v)] on the child [vs]. *)
Definition Set_ (vs : list string) (v : Z) (m : metrics) : metrics :=
  <[vs := v]> m.

End prometheus.

Module os.
(** [os.Getenv]: the variable's value, empty when it is not set. *)
Definition Getenv (variable : option string) : string := default "" variable.
End os.

(** ** [main.go] *)

Record findingsInfo : Type := {
  Name : string;
  Severity : string;
  PackageVersion : string;
  PackageName : string;
  CVSS2VECTOR : string;
  CVSS2SCORE : string
}.

(** The label names of the [findings] gauge vector, in declaration order. *)
Definition findings_labels : list string :=
  ["name"; "severity"; "package_version"; "package_name"; "CVSS2_VECTOR"; "CVSS2_SCORE"].

(** The four string variables [getECRImageScanFindings] declares ahead of
    its loops. *)
Module var.
Record t : Type := {
  packageVersion : string;
  packageName : string;
  CVSS2VECTOR : string;
  CVSS2SCORE : string
}.

(** Go's zero value of the four declarations. *)
Definition zero : t :=
  {| packageVersion := ""; packageName := ""; CVSS2VECTOR := ""; CVSS2SCORE := "" |}.
End var.

(** The [switch *attr.Key] of the innermost loop. *)
Definition switch_Key (v : var.t) (attr : ecr.Attribute) : var.t :=
  if String.eqb (ecr.Key attr) "package_version" then
    {| var.packageVersion := ecr.Value attr; var.packageName := var.packageName v;
       var.CVSS2VECTOR := var.CVSS2VECTOR v; var.CVSS2SCORE := var.CVSS2SCORE v |}
  else if String.eqb (ecr.Key attr) "package_name" then
    {| var.packageVersion := var.packageVersion v; var.packageName := ecr.Value attr;
       var.CVSS2VECTOR := var.CVSS2VECTOR v; var.CVSS2SCORE := var.CVSS2SCORE v |}
  else if String.eqb (ecr.Key attr) "CVSS2_VECTOR" then
    {| var.packageVersion := var.packageVersion v; var.packageName := var.packageName v;
       var.CVSS2VECTOR := ecr.Value attr; var.CVSS2SCORE := var.CVSS2SCORE v |}
  else if String.eqb (ecr.Key attr) "CVSS2_SCORE" then
    {| var.packageVersion := var.packageVersion v; var.packageName := var.packageName v;
       var.CVSS2VECTOR := var.CVSS2VECTOR v; var.CVSS2SCORE := ecr.Value attr |}
  else v.

(** [for _, attr := range finding.Attributes] *)
Definition range_Attributes (attrs : list ecr.Attribute) (v : var.t) : var.t :=
  fold_left switch_Key attrs v.

(** The composite literal stored in [results[i]]. *)
Definition result_of (finding : ecr.ImageScanFinding) (v : var.t) : findingsInfo :=
  {| Name := aws.StringValue (ecr.Name finding);
     Severity := aws.StringValue (ecr.Severity finding);
     PackageName := var.packageVersion v;
     PackageVersion := var.packageName v;
     CVSS2VECTOR := var.CVSS2VECTOR v;
     CVSS2SCORE := var.CVSS2SCORE v |}.

(** [for i, finding := range findings.ImageScanFindings.Findings]: the
    [results] of one page and the variables as the loop leaves them. *)
Fixpoint range_Findings (fs : list ecr.ImageScanFinding) (v : var.t)
  : list findingsInfo * var.t :=
  match fs with
  | [] => ([], v)
  | finding :: fs' =>
      let v1 := range_Attributes (ecr.Attributes finding) v in
      let (results, v2) := range_Findings fs' v1 in
      (result_of finding v1 :: results, v2)
  end.

(** One run of the pagination loop against the responses the service gives,
    in order: what the function returned (or [Blocked] when the responses
    ran out before it did), the requests it issued and the responses it
    never asked for. *)
Record fetch : Type := {
  returned : exec (list findingsInfo * option error);
  requests : list ecr.DescribeImageScanFindingsInput;
  unread : list ecr.response
}.

Fixpoint pagination (script : list ecr.response)
    (input : ecr.DescribeImageScanFindingsInput) (v : var.t)
    (findingsInfos : list findingsInfo) : fetch :=
  match script with
  | [] => {| returned := Blocked; requests := [input]; unread := [] |}
  | ecr.failed err :: script' =>
      {| returned :=
           Done ([], Some (Errorf "failed to describe image scan findings: %w" err));
         requests := [input];
         unread := script' |}
  | ecr.ok findings :: script' =>
      let (results, v') := range_Findings (ecr.Findings findings) v in
      let findingsInfos' := (findingsInfos ++ results)%list in
      match ecr.NextToken findings with
      | None =>
          {| returned := Done (findingsInfos', None);
             requests := [input];
             unread := script' |}
      | Some tok =>
          let rest := pagination script' (ecr.SetNextToken tok input) v' findingsInfos' in
          {| returned := returned rest;
             requests := input :: requests rest;
             unread := unread rest |}
      end
  end.

Definition getECRImageScanFindings (script : list ecr.response) : fetch :=
  pagination script
    {| ecr.ImageTag := "develop"; ecr.RepositoryName := "api"; ecr.InputNextToken := None |}
    var.zero [].

(** The [prometheus.Labels] literal of [snapshot]. *)
Definition labels_of (findingsInfo : findingsInfo) : prometheus.Labels :=
  <["name" := Name findingsInfo]>
  (<["severity" := Severity findingsInfo]>
  (<["package_version" := PackageName findingsInfo]>
  (<["package_name" := PackageName findingsInfo]>
  (<["CVSS2_VECTOR" := CVSS2VECTOR findingsInfo]>
  (<["CVSS2_SCORE" := CVSS2SCORE findingsInfo]> ∅))))).

(** [for _, findingsInfo := range findingsInfos]: the contents the vector
    goes through, oldest first, one after each [With] and one after each
    [Set], and how the loop ended. *)
Fixpoint range_findingsInfos (findingsInfos : list findingsInfo) (m : prometheus.metrics)
  : list prometheus.metrics * exec () :=
  match findingsInfos with
  | [] => ([], Done ())
  | findingsInfo :: rest =>
      match prometheus.With findings_labels (labels_of findingsInfo) m with
      | Done (child, m1) =>
          let m2 := prometheus.Set_ child 1 m1 in
          let (later, r) := range_findingsInfos rest m2 in
          (m1 :: m2 :: later, r)
      | Panic msg => ([], Panic msg)
      | Blocked => ([], Blocked)
      end
  end.

(** One call of [snapshot]: the contents of [findings] from the [Reset] on,
    oldest first, and the error value returned. *)
Record cycle : Type := {
  states : list prometheus.metrics;
  result : exec (option error)
}.

Definition snapshot (script : list ecr.response) (m : prometheus.metrics) : cycle :=
  let m0 := prometheus.Reset m in
  match returned (getECRImageScanFindings script) with
  | Done (findingsInfos, Some err) =>
      {| states := [m0];
         result := Done (Some (Errorf "failed to read ECR Image Scan Findings infos: %w" err)) |}
  | Done (findingsInfos, None) =>
      let (later, r) := range_findingsInfos findingsInfos m0 in
      {| states := m0 :: later;
         result := match r with
                   | Done _ => Done None
                   | Blocked => Blocked
                   | Panic msg => Panic msg
                   end |}
  | Blocked => {| states := [m0]; result := Blocked |}
  | Panic msg => {| states := [m0]; result := Panic msg |}
  end.

(** What [findings] holds once the call is over. *)
Definition published (c : cycle) (m : prometheus.metrics) : prometheus.metrics :=
  default m (last (states c)).

Definition getInterval (AWS_API_INTERVAL : option string) : Z * option error :=
  let defaultGithubAPIIntervalSecond := 300 in
  let githubAPIInterval := os.Getenv AWS_API_INTERVAL in
  if Nat.eqb (String.length githubAPIInterval) 0 then
    (defaultGithubAPIIntervalSecond, None)
  else
    let (integerGithubAPIInterval, err) := strconv.Atoi githubAPIInterval in
    match err with
    | Some err => (0, Some (Errorf "failed to read Datadog Config: %w" err))
    | None => (integerGithubAPIInterval, None)
    end.

(** How [main] gets going: [log.Fatal] on the interval, a panic of
    [time.NewTicker] in the refresh goroutine, or a ticker of some period
    (in nanoseconds) driving [snapshot]. *)
Inductive startup : Type :=
| Fatal (err : error)
| TickerPanic
| Ticking (interval period : Z).

Definition main (AWS_API_INTERVAL : option string) : startup :=
  let (interval, err) := getInterval AWS_API_INTERVAL in
  match err with
  | Some err => Fatal err
  | None =>
      match time.NewTicker (time.seconds interval) with
      | Some period => Ticking interval period
      | None => TickerPanic
      end
  end.

(** The refresh goroutine after some ticks of its ticker: waiting for the
    next one, gone with the process in [log.Fatal], inside a [snapshot]
    that has not returned, or down with a panic. *)
Inductive refresh : Type :=
| Waiting
| Exited (err : error)
| Stuck
| Crashed (msg : string).

(** [for range ticker.C]: one [snapshot] per tick received, each against
    the responses the service gives during it, on the vector as the tick
    before left it. *)
Fixpoint range_ticker (ticks : list (list ecr.response)) (m : prometheus.metrics)
  : prometheus.metrics * refresh :=
  match ticks with
  | [] => (m, Waiting)
  | script :: ticks' =>
      let c := snapshot script m in
      match result c with
      | Done None => range_ticker ticks' (published c m)
      | Done (Some err) => (published c m, Exited err)
      | Blocked => (published c m, Stuck)
      | Panic msg => (published c m, Crashed msg)
      end
  end.

(** ** Vocabulary of the statements *)

(** The value of the last attribute of the sequence with the given key. *)
Definition attribute (key : string) (attrs : list ecr.Attribute) : option string :=
  ecr.Value <$> last (filter (λ attr, ecr.Key attr = key) attrs).

(** The request the fetch sends with a given cursor. *)
Definition request (cursor : option string) : ecr.DescribeImageScanFindingsInput :=
  {| ecr.ImageTag := "develop"; ecr.RepositoryName := "api"; ecr.InputNextToken := cursor |}.

(** The findings of a run of pages, in order. *)
Definition all_findings (pages : list ecr.DescribeImageScanFindingsOutput)
  : list ecr.ImageScanFinding :=
  concat (ecr.Findings <$> pages).

(** No response with a cursor at the head of the script: the loop stops at
    its first request. *)
Definition stops (tail : list ecr.response) : Prop :=
  ∀ out tail', tail = ecr.ok out :: tail' → ecr.NextToken out = None.

(** The label values of the child [snapshot] sets for a record, in the
    order of [findings_labels]: what [prometheus.values] makes of
    [labels_of], by [values_labels_of] below. *)
Definition child_of (findingsInfo : findingsInfo) : list string :=
  [Name findingsInfo; Severity findingsInfo; PackageName findingsInfo;
   PackageName findingsInfo; CVSS2VECTOR findingsInfo; CVSS2SCORE findingsInfo].

(** The example of the specification: two pages of one finding each, the
    second finding without attributes. *)
Definition CVE_1 : ecr.ImageScanFinding :=
  {| ecr.Name := Some "CVE-1"; ecr.Severity := Some "HIGH";
     ecr.Attributes := [ {| ecr.Key := "package_name"; ecr.Value := "libfoo" |};
                         {| ecr.Key := "package_version"; ecr.Value := "1.2" |} ] |}.

Definition CVE_2 : ecr.ImageScanFinding :=
  {| ecr.Name := Some "CVE-2"; ecr.Severity := Some "LOW"; ecr.Attributes := [] |}.

Definition page_1 : ecr.DescribeImageScanFindingsOutput :=
  {| ecr.Findings := [CVE_1]; ecr.NextToken := Some "tok1" |}.

Definition page_2 : ecr.DescribeImageScanFindingsOutput :=
  {| ecr.Findings := [CVE_2]; ecr.NextToken := None |}.

Definition two_pages : list ecr.response := [ecr.ok page_1; ecr.ok page_2].

(** A vector left over from an earlier cycle, with one sample. *)
Definition earlier : prometheus.metrics :=
  {[ ["CVE-0"; "MEDIUM"; "0.9"; "0.9"; ""; ""] := 1 ]}.

(** The four keys the [switch] has a case for. *)
Definition recognised (attr : ecr.Attribute) : Prop :=
  ecr.Key attr ∈ ["package_version"; "package_name"; "CVSS2_VECTOR"; "CVSS2_SCORE"].

(** A finding without the attributes the [switch] has no case for. *)
Definition strip (finding : ecr.ImageScanFinding) : ecr.ImageScanFinding :=
  {| ecr.Name := ecr.Name finding;
     ecr.Severity := ecr.Severity finding;
     ecr.Attributes := filter recognised (ecr.Attributes finding) |}.

(** The attributes of the first [n] findings, in order. *)
Definition attributes_upto (n : nat) (fs : list ecr.ImageScanFinding)
  : list ecr.Attribute :=
  concat (ecr.Attributes <$> take n fs).

(** A fetch that comes back with records and no error. *)
Definition fetches (script : list ecr.response) (findingsInfos : list findingsInfo)
  : Prop :=
  returned (getECRImageScanFindings script) = Done (findingsInfos, None).

(** A page that lists the same finding twice. *)
Definition twice : list ecr.response :=
  [ecr.ok {| ecr.Findings := [CVE_2; CVE_2]; ecr.NextToken := None |}].

(** The samples a run of records amounts to: value 1 under the label values
    of each record. *)
Definition samples (findingsInfos : list findingsInfo) (m : prometheus.metrics)
  : prometheus.metrics :=
  foldl (λ m findingsInfo, <[child_of findingsInfo := 1]> m) m findingsInfos.

Definition timeout : error := errorString "RequestError: send request failed".

(** ** The attribute scan *)

Section Builder.

Implicit Types (v : var.t) (attrs : list ecr.Attribute)
  (fs : list ecr.ImageScanFinding).

Lemma range_Attributes_snoc attrs attr v :
  range_Attributes (attrs ++ [attr]) v = switch_Key (range_Attributes attrs v) attr.
Proof. unfold range_Attributes. by rewrite fold_left_app. Qed.

Lemma attribute_snoc key attrs attr :
  attribute key (attrs ++ [attr]) =
  if decide (ecr.Key attr = key) then Some (ecr.Value attr) else attribute key attrs.
Proof.
  unfold attribute. rewrite filter_app, filter_cons, filter_nil.
  case_decide as Hk; simpl.
  - by rewrite last_snoc.
  - by rewrite app_nil_r.
Qed.

Ltac key_cases :=
  unfold switch_Key;
  repeat match goal with
    | |- context [String.eqb ?a ?b] =>
        let E := fresh "E" in
        destruct (String.eqb_spec a b) as [E|E]; [rewrite E in *|]
    end;
  simpl; repeat case_decide; simpl; congruence.

(** Each variable ends the scan with the value of the finding's last
    attribute of its key, and keeps the value it came in with when the
    finding has no such attribute. *)
Lemma range_Attributes_fields attrs v :
  var.packageVersion (range_Attributes attrs v)
    = default (var.packageVersion v) (attribute "package_version" attrs)
  ∧ var.packageName (range_Attributes attrs v)
    = default (var.packageName v) (attribute "package_name" attrs)
  ∧ var.CVSS2VECTOR (range_Attributes attrs v)
    = default (var.CVSS2VECTOR v) (attribute "CVSS2_VECTOR" attrs)
  ∧ var.CVSS2SCORE (range_Attributes attrs v)
    = default (var.CVSS2SCORE v) (attribute "CVSS2_SCORE" attrs).
Proof.
  induction attrs as [|attr attrs IH] using rev_ind; [done|].
  destruct IH as (IH1 & IH2 & IH3 & IH4).
  rewrite range_Attributes_snoc, !attribute_snoc.
  repeat split; key_cases.
Qed.

Lemma range_Findings_app fs1 fs2 v :
  range_Findings (fs1 ++ fs2) v =
  ((range_Findings fs1 v).1 ++ (range_Findings fs2 (range_Findings fs1 v).2).1,
   (range_Findings fs2 (range_Findings fs1 v).2).2)%list.
Proof.
  revert v. induction fs1 as [|finding fs1 IH]; intros v; simpl.
  - by destruct (range_Findings fs2 v).
  - rewrite IH. by destruct (range_Findings fs1 _), (range_Findings fs2 _).
Qed.

Lemma range_Findings_length fs v : length (range_Findings fs v).1 = length fs.
Proof.
  revert v. induction fs as [|finding fs IH]; intros v; simpl; [done|].
  specialize (IH (range_Attributes (ecr.Attributes finding) v)).
  destruct (range_Findings fs _); simpl in *. by rewrite IH.
Qed.

(** The record at a position is built from the finding at that position
    and the variables as the findings before it left them. *)
Lemma range_Findings_lookup fs v (i : nat) finding :
  fs !! i = Some finding →
  ∃ v', (range_Findings fs v).1 !! i
        = Some (result_of finding (range_Attributes (ecr.Attributes finding) v')).
Proof.
  revert v i. induction fs as [|f fs IH]; intros v i Hi; [done|].
  simpl. destruct i as [|i]; simpl in Hi.
  - injection Hi as ->. exists v. by destruct (range_Findings fs _).
  - destruct (IH (range_Attributes (ecr.Attributes f) v) i Hi) as [v' Hv'].
    exists v'. by destruct (range_Findings fs _).
Qed.

Lemma range_Findings_names fs v :
  (λ r, (Name r, Severity r)) <$> (range_Findings fs v).1 =
  (λ f, (aws.StringValue (ecr.Name f), aws.StringValue (ecr.Severity f))) <$> fs.
Proof.
  revert v. induction fs as [|finding fs IH]; intros v; simpl; [done|].
  specialize (IH (range_Attributes (ecr.Attributes finding) v)).
  destruct (range_Findings fs _); simpl in *. by f_equal.
Qed.

End Builder.

(** C1 (code bug).  The claim wants the four working fields emptied before
    each finding, so that a finding without a key gets an empty field.  The
    function declares them once, ahead of both loops: on the two pages of
    the specification's example, CVE-2 has neither a package_version nor a
    package_name attribute, and its record still holds "1.2" and "libfoo",
    the values of CVE-1 from the page before. *)
Theorem C1_missing_attribute_keeps_earlier_value :
  attribute "package_version" (ecr.Attributes CVE_2) = None
  ∧ attribute "package_name" (ecr.Attributes CVE_2) = None
  ∧ returned (getECRImageScanFindings two_pages) =
      Done ([ {| Name := "CVE-1"; Severity := "HIGH"; PackageVersion := "libfoo";
                 PackageName := "1.2"; CVSS2VECTOR := ""; CVSS2SCORE := "" |};
              {| Name := "CVE-2"; Severity := "LOW"; PackageVersion := "libfoo";
                 PackageName := "1.2"; CVSS2VECTOR := ""; CVSS2SCORE := "" |} ],
            None).
Proof. by vm_compute. Qed.

(** C7.  Whatever the variables hold when a finding is reached, a finding
    with a package_version attribute gets that attribute's value in the
    PackageName field of its record, and a finding with a package_name
    attribute gets that one's value in the PackageVersion field. *)
Theorem C7_builder_swaps_package_fields
    (fs : list ecr.ImageScanFinding) (v : var.t) (i : nat)
    (finding : ecr.ImageScanFinding) :
  fs !! i = Some finding →
  ∃ r, (range_Findings fs v).1 !! i = Some r
    ∧ (∀ x, attribute "package_version" (ecr.Attributes finding) = Some x
            → PackageName r = x)
    ∧ (∀ x, attribute "package_name" (ecr.Attributes finding) = Some x
            → PackageVersion r = x).
Proof.
  intros Hi. destruct (range_Findings_lookup fs v i finding Hi) as [v' Hr].
  eexists; split; [exact Hr|].
  destruct (range_Attributes_fields (ecr.Attributes finding) v') as (Hv & Hn & _).
  simpl. rewrite Hv, Hn. split; intros x ->; reflexivity.
Qed.

Lemma C7_builder_swaps_package_fields_witness :
  ∃ r, (range_Findings [CVE_1] var.zero).1 !! 0%nat = Some r
    ∧ PackageName r = "1.2" ∧ PackageVersion r = "libfoo".
Proof.
  destruct (C7_builder_swaps_package_fields [CVE_1] var.zero 0%nat CVE_1 eq_refl)
    as (r & Hr & Hversion & Hname).
  exists r. split; [exact Hr|].
  split; [apply Hversion | apply Hname]; reflexivity.
Defined.

(** ** The pagination loop *)

Section Pagination.

Implicit Types (script tail : list ecr.response)
  (front : list ecr.DescribeImageScanFindingsOutput)
  (input : ecr.DescribeImageScanFindingsInput) (v : var.t)
  (acc : list findingsInfo) (cursor : option string).

(** The responses decide what the loop returns and leaves unread; the
    request only travels along. *)
Lemma pagination_input script input input' v acc :
  returned (pagination script input v acc) = returned (pagination script input' v acc)
  ∧ unread (pagination script input v acc) = unread (pagination script input' v acc).
Proof.
  revert input input' v acc.
  induction script as [|[out|err] script IH]; intros input input' v acc; simpl; [done| |done].
  destruct (range_Findings _ v) as [results v'].
  destruct (ecr.NextToken out) as [tok|]; simpl; [|done].
  apply IH.
Qed.

Lemma pagination_stops tail input v acc :
  stops tail → requests (pagination tail input v acc) = [input].
Proof.
  intros Hstop. destruct tail as [|[out|err] tail']; simpl; [done| |done].
  destruct (range_Findings _ v). by rewrite (Hstop out tail' eq_refl).
Qed.

Lemma all_findings_cons out front :
  all_findings (out :: front) = (ecr.Findings out ++ all_findings front)%list.
Proof. reflexivity. Qed.

(** Pages with a cursor are all consumed: each adds its records and
    sends the next request out with its cursor. *)
Lemma pagination_front front tail cursor v acc :
  Forall (λ out, is_Some (ecr.NextToken out)) front →
  stops tail →
  let r := range_Findings (all_findings front) v in
  let f := pagination tail (request cursor) r.2 (acc ++ r.1)%list in
  pagination ((ecr.ok <$> front) ++ tail) (request cursor) v acc =
  {| returned := returned f;
     requests := request cursor :: (request ∘ ecr.NextToken <$> front);
     unread := unread f |}.
Proof.
  intros Hfront Hstop. revert cursor v acc.
  induction Hfront as [|out front [tok Htok] _ IH]; intros cursor v acc.
  - simpl. rewrite app_nil_r.
    destruct (pagination tail (request cursor) v acc) as [ret reqs unr] eqn:E.
    simpl. f_equal.
    by rewrite <- (pagination_stops tail (request cursor) v acc Hstop), E.
  - cbv zeta in IH. cbv zeta.
    rewrite fmap_cons, <- app_comm_cons, all_findings_cons, range_Findings_app.
    cbn [pagination].
    destruct (range_Findings (ecr.Findings out) v) as [results v'] eqn:E.
    rewrite Htok.
    change (ecr.SetNextToken tok (request cursor)) with (request (Some tok)).
    rewrite (IH (Some tok) v' (acc ++ results)%list).
    cbn [returned requests unread fst snd]. rewrite <- app_assoc.
    destruct (pagination_input tail (request (Some tok)) (request cursor)
                (range_Findings (all_findings front) v').2
                (acc ++ results ++ (range_Findings (all_findings front) v').1)%list)
      as [-> ->].
    rewrite (fmap_cons _ out front). simpl. by rewrite Htok.
Qed.

End Pagination.

Lemma all_findings_snoc front final :
  all_findings (front ++ [final]) = (all_findings front ++ ecr.Findings final)%list.
Proof. unfold all_findings. by rewrite fmap_app, concat_app; simpl; rewrite app_nil_r. Qed.

Lemma stops_nil : stops [].
Proof. by intros out tail'. Qed.

Lemma stops_failed err rest : stops (ecr.failed err :: rest).
Proof. by intros out tail'. Qed.

Lemma stops_final final rest :
  ecr.NextToken final = None → stops (ecr.ok final :: rest).
Proof. intros Hnone out tail' [= <- _]. exact Hnone. Qed.

(** C5.  Against responses that all carry a cursor the fetch keeps asking:
    it has sent one request per response and one more, each with the cursor
    of the response before it, and has not returned.  With a response
    without a cursor next, it returns there, without an error and without
    reading further: the records of the findings of all these pages, in
    page order, one record per finding. *)
Theorem C5_pagination_follows_cursor
    (front : list ecr.DescribeImageScanFindingsOutput) :
  Forall (λ out, is_Some (ecr.NextToken out)) front →
  (returned (getECRImageScanFindings (ecr.ok <$> front)) = Blocked
   ∧ requests (getECRImageScanFindings (ecr.ok <$> front))
     = request None :: (request ∘ ecr.NextToken <$> front))
  ∧ ∀ final rest, ecr.NextToken final = None →
      let f := getECRImageScanFindings ((ecr.ok <$> front) ++ ecr.ok final :: rest) in
      let findingsInfos := (range_Findings (all_findings (front ++ [final])) var.zero).1 in
      returned f = Done (findingsInfos, None)
      ∧ (λ r, (Name r, Severity r)) <$> findingsInfos
        = (λ finding, (aws.StringValue (ecr.Name finding),
                       aws.StringValue (ecr.Severity finding)))
            <$> all_findings (front ++ [final])
      ∧ requests f = request None :: (request ∘ ecr.NextToken <$> front)
      ∧ unread f = rest.
Proof.
  intros Hfront. split.
  - pose proof (pagination_front front [] None var.zero [] Hfront stops_nil) as H.
    rewrite app_nil_r in H. unfold getECRImageScanFindings.
    change {| ecr.ImageTag := "develop"; ecr.RepositoryName := "api";
              ecr.InputNextToken := None |} with (request None).
    by rewrite H.
  - intros final rest Hfinal.
    pose proof (pagination_front front (ecr.ok final :: rest) None var.zero []
                  Hfront (stops_final final rest Hfinal)) as H.
    cbv zeta in *. unfold getECRImageScanFindings.
    change {| ecr.ImageTag := "develop"; ecr.RepositoryName := "api";
              ecr.InputNextToken := None |} with (request None).
    rewrite H. clear H. cbn [returned requests unread pagination].
    rewrite all_findings_snoc, range_Findings_app.
    destruct (range_Findings (all_findings front) var.zero) as [results v] eqn:E.
    cbn [fst snd].
    destruct (range_Findings (ecr.Findings final) v) as [results' v''] eqn:E'.
    rewrite Hfinal. cbn [returned requests unread fst snd app].
    repeat split.
    pose proof (range_Findings_names (all_findings front ++ ecr.Findings final) var.zero) as Hn.
    rewrite range_Findings_app, E in Hn. cbn [fst snd] in Hn.
    by rewrite E' in Hn.
Qed.

Lemma C5_pagination_follows_cursor_witness :
  returned (getECRImageScanFindings two_pages)
    = Done ((range_Findings [CVE_1; CVE_2] var.zero).1, None)
  ∧ requests (getECRImageScanFindings two_pages)
    = [request None; request (Some "tok1")]
  ∧ unread (getECRImageScanFindings two_pages) = [].
Proof.
  assert (Hfront : Forall (λ out, is_Some (ecr.NextToken out)) [page_1]).
  { repeat constructor. exists "tok1". reflexivity. }
  destruct (C5_pagination_follows_cursor [page_1] Hfront) as [_ Hreturn].
  destruct (Hreturn page_2 [] eq_refl) as (Hret & _ & Hreq & Hunread).
  split; [exact Hret | split; [exact Hreq | exact Hunread]].
Defined.

(** C6.  When a request fails, after any number of pages that came back
    with a cursor, the fetch returns at once: a nil slice, none of the
    records gathered from the earlier pages, and an error that wraps the
    request's error. *)
Theorem C6_request_error_aborts_fetch
    (front : list ecr.DescribeImageScanFindingsOutput) (err : error)
    (rest : list ecr.response) :
  Forall (λ out, is_Some (ecr.NextToken out)) front →
  let f := getECRImageScanFindings ((ecr.ok <$> front) ++ ecr.failed err :: rest) in
  ∃ wrapped,
    returned f = Done ([], Some wrapped)
    ∧ wrapped = Errorf "failed to describe image scan findings: %w" err
    ∧ Unwrap wrapped = Some err
    ∧ requests f = request None :: (request ∘ ecr.NextToken <$> front)
    ∧ unread f = rest.
Proof.
  intros Hfront.
  pose proof (pagination_front front (ecr.failed err :: rest) None var.zero []
                Hfront (stops_failed err rest)) as H.
  cbv zeta in *. unfold getECRImageScanFindings.
  change {| ecr.ImageTag := "develop"; ecr.RepositoryName := "api";
            ecr.InputNextToken := None |} with (request None).
  rewrite H. eexists. repeat split.
Qed.

Lemma C6_request_error_aborts_fetch_witness :
  returned (getECRImageScanFindings [ecr.ok page_1; ecr.failed timeout])
  = Done ([], Some (Errorf "failed to describe image scan findings: %w" timeout)).
Proof.
  assert (Hfront : Forall (λ out, is_Some (ecr.NextToken out)) [page_1]).
  { repeat constructor. exists "tok1". reflexivity. }
  destruct (C6_request_error_aborts_fetch [page_1] timeout [] Hfront)
    as (wrapped & Hret & -> & _).
  exact Hret.
Defined.

(** ** The refresh of the gauge vector *)

Section Refresh.

Implicit Types (m s : prometheus.metrics) (child : list string)
  (findingsInfos : list findingsInfo).

Lemma values_labels_of findingsInfo :
  prometheus.values findings_labels (labels_of findingsInfo)
  = Some (child_of findingsInfo).
Proof. destruct findingsInfo. by vm_compute. Qed.

Lemma With_labels_of findingsInfo m :
  prometheus.With findings_labels (labels_of findingsInfo) m =
  Done (child_of findingsInfo,
        match m !! child_of findingsInfo with
        | Some _ => m
        | None => <[child_of findingsInfo := 0]> m
        end).
Proof.
  unfold prometheus.With. rewrite values_labels_of.
  by destruct (m !! child_of findingsInfo).
Qed.

Lemma With_dom findingsInfo m :
  dom (match m !! child_of findingsInfo with
       | Some _ => m
       | None => <[child_of findingsInfo := 0]> m
       end) = dom m ∪ {[child_of findingsInfo]}.
Proof.
  destruct (m !! child_of findingsInfo) eqn:E.
  - apply (elem_of_dom_2 m) in E. apply set_eq. intros child.
    rewrite elem_of_union, elem_of_singleton. intuition congruence.
  - rewrite dom_insert_L. apply union_comm_L.
Qed.

Lemma With_Set findingsInfo m :
  prometheus.Set_ (child_of findingsInfo) 1
    (match m !! child_of findingsInfo with
     | Some _ => m
     | None => <[child_of findingsInfo := 0]> m
     end) = <[child_of findingsInfo := 1]> m.
Proof.
  unfold prometheus.Set_.
  destruct (m !! child_of findingsInfo); [done|]. apply insert_insert_eq.
Qed.

Lemma samples_lookup findingsInfos m child :
  samples findingsInfos m !! child =
  if decide (child ∈ child_of <$> findingsInfos) then Some 1 else m !! child.
Proof.
  revert m. induction findingsInfos as [|fi rest IH]; intros m.
  - rewrite decide_False; [done|]. apply not_elem_of_nil.
  - change (samples (fi :: rest) m) with (samples rest (<[child_of fi := 1]> m)).
    rewrite IH, fmap_cons.
    destruct (decide (child = child_of fi)) as [->|Hne].
    + rewrite lookup_insert_eq, (decide_True (P := _ ∈ _ :: _)) by (left).
      by case_decide.
    + rewrite lookup_insert_ne by done.
      destruct (decide (child ∈ child_of <$> rest)) as [Hin|Hout].
      * by rewrite decide_True by (by right).
      * rewrite decide_False; [done|].
        intros [?|?]%elem_of_cons; done.
Qed.

Lemma samples_dom findingsInfos m :
  dom (samples findingsInfos m) = dom m ∪ list_to_set (child_of <$> findingsInfos).
Proof.
  apply set_eq. intros child.
  rewrite elem_of_dom, samples_lookup, elem_of_union, elem_of_list_to_set, elem_of_dom.
  unfold is_Some. case_decide; intuition eauto.
Qed.

(** The loop over the records never panics; it leaves the samples of all
    records, and every content it goes through on the way holds, besides
    what was there, the label values of the first few records. *)
Lemma range_findingsInfos_spec findingsInfos m :
  (range_findingsInfos findingsInfos m).2 = Done ()
  ∧ default m (last (range_findingsInfos findingsInfos m).1) = samples findingsInfos m
  ∧ Forall (λ s, ∃ k : nat, (0 < k ≤ length findingsInfos)%nat
               ∧ dom s = dom m ∪ list_to_set (child_of <$> take k findingsInfos))
      (range_findingsInfos findingsInfos m).1.
Proof.
  revert m. induction findingsInfos as [|fi rest IH]; intros m.
  - simpl. repeat split. constructor.
  - cbn [range_findingsInfos]. rewrite With_labels_of. cbn beta iota.
    rewrite With_Set.
    destruct (IH (<[child_of fi := 1]> m)) as (Hr & Hlast & Hall).
    destruct (range_findingsInfos rest (<[child_of fi := 1]> m)) as [later r].
    cbn [fst snd] in *. split; [done|]. split.
    + rewrite last_cons_cons, last_cons.
      change (samples (fi :: rest) m) with (samples rest (<[child_of fi := 1]> m)).
      rewrite <- Hlast. by destruct (last later).
    + constructor; [|constructor].
      * exists 1%nat. split; [simpl; lia|]. rewrite With_dom. simpl.
        set_solver.
      * exists 1%nat. split; [simpl; lia|]. rewrite dom_insert_L. simpl.
        set_solver.
      * eapply Forall_impl; [exact Hall|]. intros s (k & Hk & Hs).
        exists (S k). split; [simpl; lia|]. rewrite Hs, dom_insert_L. simpl.
        set_solver.
Qed.

Lemma snapshot_success script m findingsInfos :
  returned (getECRImageScanFindings script) = Done (findingsInfos, None) →
  result (snapshot script m) = Done None
  ∧ states (snapshot script m) = ∅ :: (range_findingsInfos findingsInfos ∅).1
  ∧ published (snapshot script m) m = samples findingsInfos ∅.
Proof.
  intros Hfetch. unfold published, snapshot. rewrite Hfetch.
  destruct (range_findingsInfos_spec findingsInfos ∅) as (Hr & Hlast & _).
  unfold prometheus.Reset.
  destruct (range_findingsInfos findingsInfos ∅) as [later r].
  cbn [fst snd states result] in *. rewrite Hr.
  repeat split. rewrite last_cons. rewrite <- Hlast. by destruct (last later).
Qed.

Lemma snapshot_failure script m findingsInfos err :
  returned (getECRImageScanFindings script) = Done (findingsInfos, Some err) →
  snapshot script m =
  {| states := [∅];
     result := Done (Some (Errorf "failed to read ECR Image Scan Findings infos: %w" err)) |}.
Proof. intros Hfetch. unfold snapshot. by rewrite Hfetch. Qed.

Lemma length_remove_dups (l : list (list string)) :
  (length (remove_dups l) ≤ length l)%nat.
Proof.
  induction l as [|x l IH]; simpl; [done|].
  destruct (decide_rel elem_of x l); simpl; lia.
Qed.

Lemma remove_dups_NoDup (l : list (list string)) : NoDup l → remove_dups l = l.
Proof.
  induction 1 as [|x l Hx _ IH]; simpl; [done|].
  destruct (decide_rel elem_of x l); [done|]. by rewrite IH.
Qed.

Lemma size_samples findingsInfos :
  size (samples findingsInfos ∅) = length (remove_dups (child_of <$> findingsInfos)).
Proof.
  rewrite <- (size_list_to_set (C := gset (list string)))
    by apply NoDup_remove_dups.
  rewrite <- (size_dom (D := gset (list string))), samples_dom, dom_empty_L.
  f_equal. apply set_eq. intros child.
  rewrite elem_of_union, !elem_of_list_to_set, elem_of_remove_dups.
  split; [intros [[]%elem_of_empty|H]; exact H | by right].
Qed.

End Refresh.

(** Two vectors with different numbers of samples are different. *)
Ltac differ_in_size :=
  let H := fresh in
  intros H; apply (f_equal size) in H; vm_compute in H; discriminate H.

Lemma labels_of_package_labels (findingsInfo : findingsInfo) :
  labels_of findingsInfo !! "package_version" = Some (PackageName findingsInfo)
  ∧ labels_of findingsInfo !! "package_name" = Some (PackageName findingsInfo).
Proof. destruct findingsInfo. by vm_compute. Qed.

(** C2 (code bug).  The claim has label package_name take the record's
    PackageVersion field.  The labels literal reads PackageName for both
    package labels and PackageVersion for none: for the record the builder
    makes of CVE-1, label package_version is "1.2", as claimed, and label
    package_name is "1.2" too, where the PackageVersion field holds
    "libfoo". *)
Theorem C2_package_name_label_reads_PackageName :
  let findingsInfo :=
    {| Name := "CVE-1"; Severity := "HIGH"; PackageVersion := "libfoo";
       PackageName := "1.2"; CVSS2VECTOR := ""; CVSS2SCORE := "" |} in
  (range_Findings [CVE_1] var.zero).1 = [findingsInfo]
  ∧ labels_of findingsInfo !! "package_version" = Some (PackageName findingsInfo)
  ∧ labels_of findingsInfo !! "package_name" = Some "1.2"
  ∧ labels_of findingsInfo !! "package_name" ≠ Some (PackageVersion findingsInfo).
Proof. by vm_compute. Qed.

(** C3 (as stated, refuted).  A cycle whose only request fails, run on a
    vector that holds one sample from an earlier cycle, leaves the vector
    empty rather than unchanged. *)
Lemma C3_failed_fetch_counterexample :
  returned (getECRImageScanFindings [ecr.failed timeout])
    = Done ([], Some (Errorf "failed to describe image scan findings: %w" timeout))
  ∧ size earlier = 1%nat
  ∧ published (snapshot [ecr.failed timeout] earlier) earlier = ∅
  ∧ published (snapshot [ecr.failed timeout] earlier) earlier ≠ earlier.
Proof.
  split; [reflexivity|]. split; [by vm_compute|]. split; [reflexivity|].
  differ_in_size.
Qed.

(** C3 (amended).  When the fetch fails, [snapshot] returns an error that
    wraps the fetch's error and sets no sample; the vector was reset before
    the fetch, so whatever it held before, it is empty afterwards. *)
Theorem C3_failed_fetch_leaves_vector_reset
    (script : list ecr.response) (m : prometheus.metrics)
    (findingsInfos : list findingsInfo) (err : error) :
  returned (getECRImageScanFindings script) = Done (findingsInfos, Some err) →
  ∃ wrapped,
    result (snapshot script m) = Done (Some wrapped)
    ∧ wrapped = Errorf "failed to read ECR Image Scan Findings infos: %w" err
    ∧ Unwrap wrapped = Some err
    ∧ states (snapshot script m) = [∅]
    ∧ published (snapshot script m) m = ∅.
Proof.
  intros Hfetch. unfold published.
  rewrite (snapshot_failure script m findingsInfos err Hfetch).
  eexists. repeat split.
Qed.

Lemma C3_failed_fetch_leaves_vector_reset_witness :
  published (snapshot [ecr.ok page_1; ecr.failed timeout] earlier) earlier = ∅.
Proof.
  destruct (C3_failed_fetch_leaves_vector_reset
              [ecr.ok page_1; ecr.failed timeout] earlier [] _ eq_refl)
    as (wrapped & _ & _ & _ & _ & Hpublished).
  exact Hpublished.
Defined.

(** C4 (as stated, refuted).  In a cycle over the two pages of the
    specification's example, started on a vector with one earlier sample,
    the vector is empty from the reset until the fetch is over, and later
    holds the sample of CVE-1 alone: contents that are neither the vector
    of before the cycle nor the one after it. *)
Lemma C4_scrape_during_refresh_counterexample :
  let c := snapshot two_pages earlier in
  result c = Done None
  ∧ states c !! 0%nat = Some ∅
  ∧ map_to_list <$> states c !! 2%nat
    = Some [(["CVE-1"; "HIGH"; "1.2"; "1.2"; ""; ""], 1)]
  ∧ size earlier = 1%nat
  ∧ size (published c earlier) = 2%nat
  ∧ ∃ s, s ∈ states c ∧ s ≠ earlier ∧ s ≠ published c earlier.
Proof.
  cbv zeta.
  split; [by vm_compute|]. split; [reflexivity|]. split; [by vm_compute|].
  split; [by vm_compute|]. split; [by vm_compute|].
  exists ∅. split; [|split; differ_in_size].
  apply list_elem_of_lookup. exists 0%nat. reflexivity.
Qed.

(** C4 (amended).  A successful cycle resets the vector in place and then
    fills it record by record.  From the reset on, the vector is first
    empty, then holds at each moment exactly the label sets of the first
    few records of the cycle, hence no sample of an earlier cycle, and at
    the end the samples of all records. *)
Theorem C4_vector_is_reset_then_refilled
    (script : list ecr.response) (m : prometheus.metrics)
    (findingsInfos : list findingsInfo) :
  returned (getECRImageScanFindings script) = Done (findingsInfos, None) →
  let c := snapshot script m in
  result c = Done None
  ∧ head (states c) = Some ∅
  ∧ last (states c) = Some (samples findingsInfos ∅)
  ∧ Forall (λ s, ∃ k : nat, (k ≤ length findingsInfos)%nat
               ∧ dom s = list_to_set (child_of <$> take k findingsInfos))
      (states c).
Proof.
  intros Hfetch.
  destruct (snapshot_success script m findingsInfos Hfetch) as (Hres & Hstates & _).
  destruct (range_findingsInfos_spec findingsInfos ∅) as (_ & Hlast & Hall).
  cbv zeta. rewrite Hres, Hstates. repeat split.
  - rewrite last_cons, <- Hlast. by destruct (last _).
  - constructor.
    + exists 0%nat. split; [lia|]. by rewrite take_0, dom_empty_L.
    + eapply Forall_impl; [exact Hall|]. intros s (k & Hk & Hs).
      exists k. split; [lia|]. rewrite Hs, dom_empty_L. apply (left_id_L ∅ (∪)).
Qed.

Lemma C4_vector_is_reset_then_refilled_witness :
  head (states (snapshot two_pages earlier)) = Some ∅
  ∧ last (states (snapshot two_pages earlier))
    = Some (samples (range_Findings [CVE_1; CVE_2] var.zero).1 ∅).
Proof.
  destruct (C4_vector_is_reset_then_refilled two_pages earlier _ eq_refl)
    as (_ & Hhead & Hlast & _).
  split; [exact Hhead | exact Hlast].
Defined.

(** C8 (as stated, refuted).  A page that lists one finding twice gives two
    records and a successful cycle, and the vector holds a single sample. *)
Lemma C8_repeated_finding_counterexample :
  let findingsInfo :=
    {| Name := "CVE-2"; Severity := "LOW"; PackageVersion := "";
       PackageName := ""; CVSS2VECTOR := ""; CVSS2SCORE := "" |} in
  returned (getECRImageScanFindings twice) = Done ([findingsInfo; findingsInfo], None)
  ∧ result (snapshot twice ∅) = Done None
  ∧ size (published (snapshot twice ∅) ∅) = 1%nat
  ∧ size (published (snapshot twice ∅) ∅) ≠ length [findingsInfo; findingsInfo].
Proof. by vm_compute. Qed.

(** C8 (amended).  After a successful cycle the vector holds exactly the
    label sets of the cycle's records, each once and with value 1, and
    nothing from before: there are as many samples as the records have
    distinct label sets, which is the number of records when no two records
    share a label set, and less otherwise. *)
Theorem C8_samples_are_the_distinct_label_sets
    (script : list ecr.response) (m : prometheus.metrics)
    (findingsInfos : list findingsInfo) :
  returned (getECRImageScanFindings script) = Done (findingsInfos, None) →
  let M := published (snapshot script m) m in
  result (snapshot script m) = Done None
  ∧ (∀ child, M !! child =
       if decide (child ∈ child_of <$> findingsInfos) then Some 1 else None)
  ∧ NoDup (map_to_list M).*1
  ∧ size M = length (remove_dups (child_of <$> findingsInfos))
  ∧ (size M ≤ length findingsInfos)%nat
  ∧ (NoDup (child_of <$> findingsInfos) → size M = length findingsInfos).
Proof.
  intros Hfetch.
  destruct (snapshot_success script m findingsInfos Hfetch) as (Hres & _ & Hpub).
  cbv zeta. rewrite Hpub, size_samples. split; [exact Hres|].
  split; [intros child; by rewrite samples_lookup, lookup_empty|].
  split; [apply NoDup_fst_map_to_list|].
  split; [done|].
  split.
  - etransitivity; [apply length_remove_dups|]. by rewrite length_fmap.
  - intros Hdistinct. by rewrite remove_dups_NoDup, length_fmap.
Qed.

Lemma C8_samples_are_the_distinct_label_sets_witness :
  size (published (snapshot two_pages earlier) earlier) = 2%nat.
Proof.
  destruct (C8_samples_are_the_distinct_label_sets two_pages earlier _ eq_refl)
    as (_ & _ & _ & _ & _ & Hsize).
  apply Hsize. vm_compute.
  apply NoDup_cons. split; [|apply NoDup_singleton].
  intros H%list_elem_of_singleton. discriminate H.
Defined.

(** ** The interval setting *)

Section Interval.

Implicit Types (s : string) (n : Z).

Lemma cutoff_eq : strconv.cutoff = 9223372036854775808.
Proof. reflexivity. Qed.

Lemma digit_range c d : strconv.digit c = Some d → 0 ≤ d ≤ 9.
Proof.
  unfold strconv.digit.
  destruct (48 <=? _) eqn:Hlo; destruct (_ <=? 57) eqn:Hhi; simpl; try done.
  intros [= <-]. lia.
Qed.

Lemma digits_nonneg s n m : 0 ≤ n → strconv.digits s n = Some m → 0 ≤ m.
Proof.
  revert n. induction s as [|c s IH]; intros n Hn; simpl.
  - intros [= <-]. exact Hn.
  - destruct (strconv.digit c) as [d|] eqn:Hd; [|done].
    apply digit_range in Hd. apply IH. lia.
Qed.

(** What [Atoi] accepts fits an [int]. *)
Lemma Atoi_range s n :
  strconv.Atoi s = (n, None) → - 2 ^ 63 ≤ n < 2 ^ 63.
Proof.
  unfold strconv.Atoi. destruct (strconv.split_sign s) as [neg body].
  destruct body as [|c body]; [done|].
  destruct (strconv.digits (String c body) 0) as [un|] eqn:Hun; [|done].
  apply digits_nonneg in Hun; [|done].
  rewrite cutoff_eq. change (2 ^ 63) with 9223372036854775808.
  destruct neg; simpl.
  - destruct (_ <? un) eqn:Hlt; [done|]. intros [= <-]. lia.
  - destruct (_ <=? un) eqn:Hle; [done|]. intros [= <-]. lia.
Qed.

Lemma Atoi_not_numeral s :
  strconv.numeral s = false →
  strconv.Atoi s = (0, Some (NumError "Atoi" s strconv.ErrSyntax)).
Proof.
  unfold strconv.numeral, strconv.Atoi.
  destruct (strconv.split_sign s) as [neg body]. cbn [snd].
  destruct body as [|c body]; [done|].
  destruct (strconv.digits (String c body) 0) as [un|] eqn:E; [|done].
  intros H. apply bool_decide_eq_false in H. exfalso. apply H. by eexists.
Qed.

Lemma getInterval_Atoi s :
  s ≠ "" →
  getInterval (Some s) =
  match strconv.Atoi s with
  | (_, Some err) => (0, Some (Errorf "failed to read Datadog Config: %w" err))
  | (n, None) => (n, None)
  end.
Proof. intros Hs. unfold getInterval. by destruct s. Qed.

Lemma Atoi_empty : strconv.Atoi "" = (0, Some (NumError "Atoi" "" strconv.ErrSyntax)).
Proof. reflexivity. Qed.

Lemma int64_small n : - 2 ^ 63 ≤ n < 2 ^ 63 → time.int64 n = n.
Proof.
  unfold time.int64. change (2 ^ 63) with 9223372036854775808.
  change (2 ^ 64) with 18446744073709551616. intros Hn.
  rewrite Z.mod_small; lia.
Qed.

Lemma main_Atoi s n :
  strconv.Atoi s = (n, None) →
  getInterval (Some s) = (n, None)
  ∧ main (Some s) =
    if time.int64 (n * time.Second) <=? 0
    then TickerPanic
    else Ticking n (time.int64 (n * time.Second)).
Proof.
  intros Hn. assert (Hs : s ≠ "") by (intros ->; by rewrite Atoi_empty in Hn).
  pose proof (getInterval_Atoi s Hs) as Hget. rewrite Hn in Hget.
  split; [exact Hget|].
  unfold main. rewrite Hget. unfold time.NewTicker, time.seconds.
  rewrite (int64_small n (Atoi_range s n Hn)).
  by destruct (_ <=? 0).
Qed.

End Interval.

(** C9.  With the variable unset or empty the interval is 300 and [main]
    goes on with it.  With a value [strconv.Atoi] rejects, as it does every
    value that is not an optionally signed run of decimal digits,
    [getInterval] returns an error and [main] ends in [log.Fatal] before
    anything is started.  With a value [Atoi] accepts, the interval is the
    integer it denotes. *)
Theorem C9_interval_configuration :
  (getInterval None = (300, None) ∧ getInterval (Some "") = (300, None)
   ∧ main None = Ticking 300 300000000000
   ∧ main (Some "") = Ticking 300 300000000000)
  ∧ (∀ s err, s ≠ "" → (strconv.Atoi s).2 = Some err →
       getInterval (Some s)
         = (0, Some (Errorf "failed to read Datadog Config: %w" err))
       ∧ main (Some s) = Fatal (Errorf "failed to read Datadog Config: %w" err))
  ∧ (∀ s, strconv.numeral s = false → ∃ err, (strconv.Atoi s).2 = Some err)
  ∧ (∀ s n, strconv.Atoi s = (n, None) → getInterval (Some s) = (n, None)).
Proof.
  split; [by vm_compute|]. split; [|split].
  - intros s err Hs Herr. pose proof (getInterval_Atoi s Hs) as Hget.
    destruct (strconv.Atoi s) as [n [err'|]]; simpl in Herr; [|done].
    injection Herr as ->. split; [exact Hget|]. unfold main. by rewrite Hget.
  - intros s Hs. rewrite (Atoi_not_numeral s Hs). by eexists.
  - intros s n Hn. apply (main_Atoi s n Hn).
Qed.

Lemma C9_interval_configuration_witness :
  main (Some "5m")
    = Fatal (Errorf "failed to read Datadog Config: %w"
               (NumError "Atoi" "5m" strconv.ErrSyntax))
  ∧ getInterval (Some "60") = (60, None).
Proof.
  destruct C9_interval_configuration as (_ & Hfatal & _ & Hvalue).
  split.
  - apply (Hfatal "5m"); [discriminate | reflexivity].
  - apply (Hvalue "60" 60). reflexivity.
Defined.

(** C10 (as stated, refuted).  On a 64-bit target "-9223372037" is an
    integer [Atoi] accepts and [getInterval] returns; its product with
    [time.Second] wraps around to a positive duration, so the ticker is
    built and nothing fails, at startup or later. *)
Lemma C10_negative_interval_counterexample :
  strconv.Atoi "-9223372037" = (-9223372037, None)
  ∧ getInterval (Some "-9223372037") = (-9223372037, None)
  ∧ -9223372037 ≤ 0
  ∧ main (Some "-9223372037") = Ticking (-9223372037) 9223372036709551616
  ∧ main (Some "-9223372037") ≠ TickerPanic.
Proof.
  split; [by vm_compute|]. split; [by vm_compute|]. split; [lia|].
  split; by vm_compute.
Qed.

(** C10 (amended).  [getInterval] checks no range: every value [Atoi]
    accepts, zero and negative ones included, is returned without an error
    and passes [main]'s check.  What follows is decided by the ticker alone:
    it panics exactly when the interval times [time.Second], as an int64,
    is not positive.  That is so for 0 and for the negative intervals down
    to -9223372036; below, the product wraps around. *)
Theorem C10_interval_is_not_range_checked (s : string) (n : Z) :
  strconv.Atoi s = (n, None) →
  getInterval (Some s) = (n, None)
  ∧ (∀ err, main (Some s) ≠ Fatal err)
  ∧ main (Some s) =
      (if time.int64 (n * time.Second) <=? 0
       then TickerPanic
       else Ticking n (time.int64 (n * time.Second)))
  ∧ (-9223372036 ≤ n ≤ 0 →
     main (Some s) = TickerPanic)
  ∧ (0 < n ≤ 9223372036 → main (Some s) = Ticking n (n * 1000000000)).
Proof.
  intros Hn. destruct (main_Atoi s n Hn) as [Hget Hmain].
  split; [exact Hget|]. split; [|split; [exact Hmain|]].
  - intros err. rewrite Hmain. by destruct (_ <=? 0).
  - rewrite Hmain. unfold time.Second. split; intros Hrange.
    + rewrite int64_small
        by (change (2 ^ 63) with 9223372036854775808; lia).
      destruct (Z.leb_spec (n * 1000000000) 0); [done|lia].
    + rewrite int64_small
        by (change (2 ^ 63) with 9223372036854775808; lia).
      destruct (Z.leb_spec (n * 1000000000) 0); [lia|done].
Qed.

Lemma C10_interval_is_not_range_checked_witness :
  getInterval (Some "-5") = (-5, None)
  ∧ main (Some "-5") = TickerPanic
  ∧ main (Some "0") = TickerPanic.
Proof.
  destruct (C10_interval_is_not_range_checked "-5" (-5) eq_refl)
    as (Hget & _ & _ & Hpanic & _).
  destruct (C10_interval_is_not_range_checked "0" 0 eq_refl)
    as (_ & _ & _ & Hzero & _).
  split; [exact Hget|]. split; [apply Hpanic | apply Hzero]; lia.
Defined.

(** ** More on the attribute scan *)

Section Scan.

Implicit Types (v : var.t) (attrs : list ecr.Attribute)
  (fs : list ecr.ImageScanFinding).

Lemma range_Attributes_app attrs1 attrs2 v :
  range_Attributes (attrs1 ++ attrs2) v
  = range_Attributes attrs2 (range_Attributes attrs1 v).
Proof. unfold range_Attributes. apply fold_left_app. Qed.

Lemma switch_Key_unrecognised v attr : ¬ recognised attr → switch_Key v attr = v.
Proof.
  unfold recognised, switch_Key. intros Hkey.
  repeat match goal with
    | |- context [String.eqb ?a ?b] =>
        let E := fresh "E" in
        destruct (String.eqb_spec a b) as [E|E];
        [exfalso; apply Hkey; rewrite E; set_solver|]
    end.
  reflexivity.
Qed.

Lemma range_Attributes_filter attrs v :
  range_Attributes (filter recognised attrs) v = range_Attributes attrs v.
Proof.
  revert v. induction attrs as [|attr attrs IH]; intros v; [done|].
  rewrite filter_cons. destruct (decide (recognised attr)) as [Hkey|Hkey].
  - change (range_Attributes (filter recognised attrs) (switch_Key v attr)
            = range_Attributes attrs (switch_Key v attr)).
    apply IH.
  - rewrite IH.
    change (range_Attributes attrs v = range_Attributes attrs (switch_Key v attr)).
    by rewrite switch_Key_unrecognised.
Qed.

(** The record at a position is built with the variables as the attributes
    of all findings up to this one, taken in one run, leave them. *)
Lemma range_Findings_lookup_upto fs v (i : nat) finding :
  fs !! i = Some finding →
  (range_Findings fs v).1 !! i
  = Some (result_of finding (range_Attributes (attributes_upto (S i) fs) v)).
Proof.
  revert v i. induction fs as [|f fs IH]; intros v i Hi; [done|].
  cbn [range_Findings].
  specialize (IH (range_Attributes (ecr.Attributes f) v)).
  destruct (range_Findings fs _) as [results v2]. cbn [fst snd] in *.
  destruct i as [|i]; simpl in Hi.
  - injection Hi as ->. unfold attributes_upto. simpl. by rewrite app_nil_r.
  - simpl. rewrite (IH i Hi). unfold attributes_upto.
    change (take (S (S i)) (f :: fs)) with (f :: take (S i) fs).
    rewrite fmap_cons. simpl. by rewrite range_Attributes_app.
Qed.

End Scan.

(** X1.  A record's four derived fields hold, each, the value of the last
    attribute of its key among the attributes of all findings processed so
    far, this one included, and what the variable held at the start when
    there was none: with the zero values of a call, the empty string.  The
    package fields are crossed, the CVSS2 fields are not. *)
Theorem X1_fields_hold_last_value_seen
    (fs : list ecr.ImageScanFinding) (v : var.t) (i : nat)
    (finding : ecr.ImageScanFinding) :
  fs !! i = Some finding →
  let seen := attributes_upto (S i) fs in
  ∃ r, (range_Findings fs v).1 !! i = Some r
    ∧ Name r = aws.StringValue (ecr.Name finding)
    ∧ Severity r = aws.StringValue (ecr.Severity finding)
    ∧ PackageName r = default (var.packageVersion v) (attribute "package_version" seen)
    ∧ PackageVersion r = default (var.packageName v) (attribute "package_name" seen)
    ∧ CVSS2VECTOR r = default (var.CVSS2VECTOR v) (attribute "CVSS2_VECTOR" seen)
    ∧ CVSS2SCORE r = default (var.CVSS2SCORE v) (attribute "CVSS2_SCORE" seen).
Proof.
  intros Hi seen. eexists. split; [by apply range_Findings_lookup_upto|].
  destruct (range_Attributes_fields seen v) as (H1 & H2 & H3 & H4).
  simpl. fold seen. by rewrite H1, H2, H3, H4.
Qed.

Lemma X1_fields_hold_last_value_seen_witness :
  ∃ r, (range_Findings [CVE_1; CVE_2] var.zero).1 !! 1%nat = Some r
    ∧ Name r = "CVE-2" ∧ PackageName r = "1.2" ∧ CVSS2VECTOR r = "".
Proof.
  destruct (X1_fields_hold_last_value_seen [CVE_1; CVE_2] var.zero 1%nat CVE_2 eq_refl)
    as (r & Hr & Hname & _ & Hpackage & _ & Hvector & _).
  exists r. split; [exact Hr|]. split; [exact Hname|].
  split; [exact Hpackage | exact Hvector].
Defined.

(** X2.  Attributes with a key other than the four of the [switch] change
    nothing: the records of a page, and the variables it leaves behind, are
    those of the same findings without these attributes. *)
Theorem X2_other_keys_are_ignored (fs : list ecr.ImageScanFinding) (v : var.t) :
  range_Findings (strip <$> fs) v = range_Findings fs v.
Proof.
  revert v. induction fs as [|finding fs IH]; intros v; [done|].
  rewrite fmap_cons. cbn [range_Findings].
  change (ecr.Attributes (strip finding))
    with (filter recognised (ecr.Attributes finding)).
  rewrite range_Attributes_filter, IH. reflexivity.
Qed.

(** X3.  A finding with a CVSS2_VECTOR attribute gets that attribute's value
    in the CVSS2VECTOR field of its record and one with a CVSS2_SCORE
    attribute gets that one's in the CVSS2SCORE field, whatever the findings
    before it carried. *)
Theorem X3_cvss2_fields_take_their_attributes
    (fs : list ecr.ImageScanFinding) (v : var.t) (i : nat)
    (finding : ecr.ImageScanFinding) :
  fs !! i = Some finding →
  ∃ r, (range_Findings fs v).1 !! i = Some r
    ∧ (∀ x, attribute "CVSS2_VECTOR" (ecr.Attributes finding) = Some x
            → CVSS2VECTOR r = x)
    ∧ (∀ x, attribute "CVSS2_SCORE" (ecr.Attributes finding) = Some x
            → CVSS2SCORE r = x).
Proof.
  intros Hi. destruct (range_Findings_lookup fs v i finding Hi) as [v' Hr].
  eexists; split; [exact Hr|].
  destruct (range_Attributes_fields (ecr.Attributes finding) v') as (_ & _ & Hv & Hs).
  simpl. rewrite Hv, Hs. split; intros x ->; reflexivity.
Qed.

Lemma X3_cvss2_fields_take_their_attributes_witness :
  ∃ r, (range_Findings
          [CVE_1;
           {| ecr.Name := Some "CVE-3"; ecr.Severity := None;
              ecr.Attributes := [ {| ecr.Key := "CVSS2_SCORE"; ecr.Value := "7.5" |} ] |}]
          var.zero).1 !! 1%nat = Some r
    ∧ CVSS2SCORE r = "7.5".
Proof.
  destruct (X3_cvss2_fields_take_their_attributes
              [CVE_1;
               {| ecr.Name := Some "CVE-3"; ecr.Severity := None;
                  ecr.Attributes := [ {| ecr.Key := "CVSS2_SCORE"; ecr.Value := "7.5" |} ] |}]
              var.zero 1%nat _ eq_refl)
    as (r & Hr & _ & Hscore).
  exists r. split; [exact Hr|]. apply Hscore. reflexivity.
Defined.

(** ** More on the pagination loop *)

Section Requests.

Implicit Types (script : list ecr.response) (v : var.t)
  (acc : list findingsInfo) (cursor : option string).

Lemma pagination_error script cursor v acc findingsInfos e :
  returned (pagination script (request cursor) v acc) = Done (findingsInfos, Some e) →
  findingsInfos = []
  ∧ ∃ err, e = Errorf "failed to describe image scan findings: %w" err
         ∧ ecr.failed err ∈ script.
Proof.
  revert cursor v acc.
  induction script as [|[out|err] script IH]; intros cursor v acc; cbn [pagination].
  - discriminate.
  - destruct (range_Findings (ecr.Findings out) v) as [results v'].
    destruct (ecr.NextToken out) as [tok|]; cbn [returned]; [|discriminate].
    change (ecr.SetNextToken tok (request cursor)) with (request (Some tok)).
    intros H. destruct (IH _ _ _ H) as (Hnil & err & He & Hin).
    split; [exact Hnil|]. exists err. split; [exact He|]. by right.
  - cbn [returned]. intros [= <- <-]. split; [done|]. exists err. split; [done|]. by left.
Qed.

Lemma pagination_accounting script cursor v acc :
  let f := pagination script (request cursor) v acc in
  match returned f with
  | Done _ => (length (requests f) + length (unread f))%nat = length script
  | Blocked => unread f = [] ∧ length (requests f) = S (length script)
  | Panic _ => False
  end
  ∧ Forall (λ input, ecr.ImageTag input = "develop" ∧ ecr.RepositoryName input = "api")
      (requests f)
  ∧ head (requests f) = Some (request cursor).
Proof.
  cbv zeta. revert cursor v acc.
  induction script as [|[out|err] script IH]; intros cursor v acc; cbn [pagination].
  - cbn [returned requests unread]. repeat split. by repeat constructor.
  - destruct (range_Findings (ecr.Findings out) v) as [results v'].
    destruct (ecr.NextToken out) as [tok|]; cbn [returned requests unread].
    + change (ecr.SetNextToken tok (request cursor)) with (request (Some tok)).
      destruct (IH (Some tok) v' (acc ++ results)%list) as (Hcount & Hall & _).
      split; [|split; [by constructor | done]].
      destruct (returned (pagination script _ _ _)); simpl; [lia| |done].
      destruct Hcount as [-> ->]. done.
    + simpl. repeat split. by repeat constructor.
  - cbn [returned requests unread]. simpl. repeat split. by repeat constructor.
Qed.

End Requests.

(** X4.  Whatever the service answers, a fetch that returns an error
    returns no record with it, and its error wraps the error of a request
    that failed. *)
Theorem X4_fetch_error_comes_without_records
    (script : list ecr.response) (findingsInfos : list findingsInfo) (e : error) :
  returned (getECRImageScanFindings script) = Done (findingsInfos, Some e) →
  findingsInfos = []
  ∧ ∃ err, e = Errorf "failed to describe image scan findings: %w" err
         ∧ Unwrap e = Some err
         ∧ ecr.failed err ∈ script.
Proof.
  intros H. destruct (pagination_error script None var.zero [] _ _ H)
    as (Hnil & err & -> & Hin).
  split; [exact Hnil|]. by exists err.
Qed.

Lemma X4_fetch_error_comes_without_records_witness :
  ∃ err, ecr.failed err ∈ [ecr.ok page_1; ecr.failed timeout]
       ∧ returned (getECRImageScanFindings [ecr.ok page_1; ecr.failed timeout])
         = Done ([], Some (Errorf "failed to describe image scan findings: %w" err)).
Proof.
  destruct (X4_fetch_error_comes_without_records
              [ecr.ok page_1; ecr.failed timeout] _ _ eq_refl)
    as (_ & err & He & _ & Hin).
  exists err. split; [exact Hin|]. injection He as <-. reflexivity.
Defined.

(** X5.  Whatever the service answers, the fetch reads one response per
    request, in order: when it has returned, its requests and the responses
    it has not read add up to all responses; while it has not, it has read
    them all and has one request open.  Every request is for repository
    api and tag develop, the first one without a cursor. *)
Theorem X5_one_response_per_request (script : list ecr.response) :
  let f := getECRImageScanFindings script in
  (∀ ret, returned f = Done ret →
     (length (requests f) + length (unread f))%nat = length script)
  ∧ (returned f = Blocked →
     unread f = [] ∧ length (requests f) = S (length script))
  ∧ Forall (λ input, ecr.ImageTag input = "develop" ∧ ecr.RepositoryName input = "api")
      (requests f)
  ∧ head (requests f) = Some (request None).
Proof.
  destruct (pagination_accounting script None var.zero []) as (Hcount & Hall & Hhead).
  cbv zeta in *. unfold getECRImageScanFindings.
  change {| ecr.ImageTag := "develop"; ecr.RepositoryName := "api";
            ecr.InputNextToken := None |} with (request None).
  split; [|split; [|split; [exact Hall | exact Hhead]]].
  - intros ret Hret. by rewrite Hret in Hcount.
  - intros Hret. by rewrite Hret in Hcount.
Qed.

Lemma X5_one_response_per_request_witness :
  (length (requests (getECRImageScanFindings (two_pages ++ [ecr.failed timeout])))
   + length (unread (getECRImageScanFindings (two_pages ++ [ecr.failed timeout]))))%nat
  = 3%nat
  ∧ length (requests (getECRImageScanFindings [ecr.ok page_1])) = 2%nat.
Proof.
  destruct (X5_one_response_per_request (two_pages ++ [ecr.failed timeout]))
    as (Hdone & _).
  destruct (X5_one_response_per_request [ecr.ok page_1]) as (_ & Hblocked & _).
  split; [exact (Hdone _ eq_refl) | exact (proj2 (Hblocked eq_refl))].
Defined.

(** ** More on the refresh *)

Section Cycle.

Implicit Types (script : list ecr.response) (m : prometheus.metrics)
  (findingsInfos : list findingsInfo).

Lemma labels_of_dom findingsInfo :
  dom (labels_of findingsInfo) = list_to_set findings_labels.
Proof.
  unfold labels_of. rewrite !dom_insert_L, dom_empty_L. reflexivity.
Qed.

Lemma fetch_pages (front : list ecr.DescribeImageScanFindingsOutput) final rest :
  Forall (λ out, is_Some (ecr.NextToken out)) front →
  ecr.NextToken final = None →
  fetches ((ecr.ok <$> front) ++ ecr.ok final :: rest)
    (range_Findings (all_findings (front ++ [final])) var.zero).1.
Proof.
  intros Hfront Hfinal.
  pose proof (pagination_front front (ecr.ok final :: rest) None var.zero []
                Hfront (stops_final final rest Hfinal)) as H.
  cbv zeta in H. unfold fetches, getECRImageScanFindings.
  change {| ecr.ImageTag := "develop"; ecr.RepositoryName := "api";
            ecr.InputNextToken := None |} with (request None).
  rewrite H. clear H. cbn [returned pagination].
  rewrite all_findings_snoc, range_Findings_app.
  destruct (range_Findings (all_findings front) var.zero) as [results v].
  cbn [fst snd]. destruct (range_Findings (ecr.Findings final) v) as [results' v'].
  by rewrite Hfinal.
Qed.

Lemma fetch_blocked (front : list ecr.DescribeImageScanFindingsOutput) :
  Forall (λ out, is_Some (ecr.NextToken out)) front →
  returned (getECRImageScanFindings (ecr.ok <$> front)) = Blocked.
Proof.
  intros Hfront.
  pose proof (pagination_front front [] None var.zero [] Hfront stops_nil) as H.
  rewrite app_nil_r in H. unfold getECRImageScanFindings.
  change {| ecr.ImageTag := "develop"; ecr.RepositoryName := "api";
            ecr.InputNextToken := None |} with (request None).
  by rewrite H.
Qed.

Lemma range_ticker_fetches (ticks : list (list ecr.response)) script findingsInfos m :
  Forall (λ tick, ∃ infos, fetches tick infos) ticks →
  fetches script findingsInfos →
  range_ticker (ticks ++ [script]) m = (samples findingsInfos ∅, Waiting).
Proof.
  intros Hticks Hscript. revert m.
  induction Hticks as [|tick ticks [infos Htick] _ IH]; intros m.
  - destruct (snapshot_success script m findingsInfos Hscript) as (Hres & _ & Hpub).
    cbn [app range_ticker]. by rewrite Hres, Hpub.
  - destruct (snapshot_success tick m infos Htick) as (Hres & _ & _).
    rewrite <- app_comm_cons. cbn [range_ticker]. rewrite Hres. apply IH.
Qed.

Lemma range_ticker_fails (ticks later : list (list ecr.response)) script
    findingsInfos err m :
  Forall (λ tick, ∃ infos, fetches tick infos) ticks →
  returned (getECRImageScanFindings script) = Done (findingsInfos, Some err) →
  range_ticker (ticks ++ script :: later) m
  = (∅, Exited (Errorf "failed to read ECR Image Scan Findings infos: %w" err)).
Proof.
  intros Hticks Hscript. revert m.
  induction Hticks as [|tick ticks [infos Htick] _ IH]; intros m.
  - cbn [app range_ticker]. unfold published.
    by rewrite (snapshot_failure script m findingsInfos err Hscript).
  - destruct (snapshot_success tick m infos Htick) as (Hres & _ & _).
    rewrite <- app_comm_cons. cbn [range_ticker]. rewrite Hres. apply IH.
Qed.

End Cycle.

(** X6.  The labels [snapshot] builds for a record are the six label names
    of the vector and no other, so that [With] finds or creates a child for
    them and never panics, and the loop over the records runs to its end
    whatever the records are. *)
Theorem X6_labels_fit_the_vector :
  (∀ findingsInfo, dom (labels_of findingsInfo) = list_to_set findings_labels)
  ∧ (∀ findingsInfo m, ∃ m',
       prometheus.With findings_labels (labels_of findingsInfo) m
       = Done (child_of findingsInfo, m'))
  ∧ (∀ findingsInfos m, (range_findingsInfos findingsInfos m).2 = Done ()).
Proof.
  split; [exact labels_of_dom|]. split.
  - intros findingsInfo m. eexists. apply With_labels_of.
  - intros findingsInfos m. apply range_findingsInfos_spec.
Qed.

(** X7.  Whatever the service answers, when the fetch returns an error
    [snapshot] returns an error two wraps away from the error of a request
    that failed: its own wrap around the fetch's wrap. *)
Theorem X7_snapshot_error_wraps_twice
    (script : list ecr.response) (m : prometheus.metrics)
    (findingsInfos : list findingsInfo) (e : error) :
  returned (getECRImageScanFindings script) = Done (findingsInfos, Some e) →
  ∃ err, ecr.failed err ∈ script
    ∧ result (snapshot script m)
      = Done (Some (Errorf "failed to read ECR Image Scan Findings infos: %w"
                      (Errorf "failed to describe image scan findings: %w" err)))
    ∧ ∀ wrapped, result (snapshot script m) = Done (Some wrapped) →
                 Unwrap wrapped ≫= Unwrap = Some err.
Proof.
  intros Hfetch.
  destruct (pagination_error script None var.zero [] _ _ Hfetch)
    as (_ & err & -> & Hin).
  exists err. split; [exact Hin|].
  rewrite (snapshot_failure script m findingsInfos _ Hfetch). cbn [result].
  split; [reflexivity|]. by intros wrapped [= <-].
Qed.

Lemma X7_snapshot_error_wraps_twice_witness :
  ∃ err, ecr.failed err ∈ [ecr.ok page_1; ecr.failed timeout]
    ∧ result (snapshot [ecr.ok page_1; ecr.failed timeout] earlier)
      = Done (Some (Errorf "failed to read ECR Image Scan Findings infos: %w"
                      (Errorf "failed to describe image scan findings: %w" err))).
Proof.
  destruct (X7_snapshot_error_wraps_twice
              [ecr.ok page_1; ecr.failed timeout] earlier _ _ eq_refl)
    as (err & Hin & Hres & _).
  exists err. split; [exact Hin | exact Hres].
Defined.

(** X8.  Against a service that answers every request with a cursor,
    [snapshot] does not return, and the vector, reset before the fetch,
    stays empty whatever it held. *)
Theorem X8_endless_cursors_leave_vector_empty
    (front : list ecr.DescribeImageScanFindingsOutput) (m : prometheus.metrics) :
  Forall (λ out, is_Some (ecr.NextToken out)) front →
  result (snapshot (ecr.ok <$> front) m) = Blocked
  ∧ states (snapshot (ecr.ok <$> front) m) = [∅]
  ∧ published (snapshot (ecr.ok <$> front) m) m = ∅.
Proof.
  intros Hfront. unfold published, snapshot.
  by rewrite (fetch_blocked front Hfront).
Qed.

Lemma X8_endless_cursors_leave_vector_empty_witness :
  result (snapshot [ecr.ok page_1; ecr.ok page_1] earlier) = Blocked
  ∧ published (snapshot [ecr.ok page_1; ecr.ok page_1] earlier) earlier = ∅.
Proof.
  assert (Hfront : Forall (λ out, is_Some (ecr.NextToken out)) [page_1; page_1]).
  { repeat constructor; exists "tok1"; reflexivity. }
  destruct (X8_endless_cursors_leave_vector_empty [page_1; page_1] earlier Hfront)
    as (Hres & _ & Hpub).
  split; [exact Hres | exact Hpub].
Defined.

(** X9.  After a cycle whose fetch went through pages with cursors to one
    without, every finding of every page has a sample of value 1 whose
    first two label values are its name and its severity (empty for a
    missing one), and the vector holds no sample besides these. *)
Theorem X9_every_finding_has_a_sample
    (front : list ecr.DescribeImageScanFindingsOutput)
    (final : ecr.DescribeImageScanFindingsOutput) (rest : list ecr.response)
    (m : prometheus.metrics) :
  Forall (λ out, is_Some (ecr.NextToken out)) front →
  ecr.NextToken final = None →
  let script := ((ecr.ok <$> front) ++ ecr.ok final :: rest)%list in
  let M := published (snapshot script m) m in
  (∀ finding, finding ∈ all_findings (front ++ [final]) →
     ∃ child, M !! child = Some 1
       ∧ child !! 0%nat = Some (aws.StringValue (ecr.Name finding))
       ∧ child !! 1%nat = Some (aws.StringValue (ecr.Severity finding)))
  ∧ (∀ child x, M !! child = Some x →
     x = 1 ∧ ∃ finding, finding ∈ all_findings (front ++ [final])
       ∧ child !! 0%nat = Some (aws.StringValue (ecr.Name finding))
       ∧ child !! 1%nat = Some (aws.StringValue (ecr.Severity finding))).
Proof.
  intros Hfront Hfinal script M.
  pose proof (fetch_pages front final rest Hfront Hfinal) as Hfetch.
  fold script in Hfetch.
  destruct (snapshot_success script m _ Hfetch) as (_ & _ & Hpub).
  pose proof (range_Findings_names (all_findings (front ++ [final])) var.zero) as Hnames.
  subst M. rewrite Hpub. clear Hpub Hfetch.
  set (fs := all_findings (front ++ [final])) in *.
  set (findingsInfos := (range_Findings fs var.zero).1) in *.
  split.
  - intros finding Hin.
    assert (Hpair : (aws.StringValue (ecr.Name finding),
                     aws.StringValue (ecr.Severity finding))
                    ∈ (λ r, (Name r, Severity r)) <$> findingsInfos).
    { rewrite Hnames. apply list_elem_of_fmap. by exists finding. }
    apply list_elem_of_fmap in Hpair as (r & [= Hname Hseverity] & Hr).
    exists (child_of r). rewrite samples_lookup, decide_True.
    + by rewrite Hname, Hseverity.
    + apply list_elem_of_fmap. by exists r.
  - intros child x. rewrite samples_lookup, lookup_empty.
    case_decide as Hchild; [|done]. intros [= <-]. split; [done|].
    apply list_elem_of_fmap in Hchild as (r & -> & Hr).
    assert (Hpair : (Name r, Severity r)
                    ∈ (λ f, (aws.StringValue (ecr.Name f),
                             aws.StringValue (ecr.Severity f))) <$> fs).
    { rewrite <- Hnames. apply list_elem_of_fmap. by exists r. }
    apply list_elem_of_fmap in Hpair as (finding & [= Hname Hseverity] & Hin).
    exists finding. split; [exact Hin|]. simpl. by rewrite Hname, Hseverity.
Qed.

Lemma X9_every_finding_has_a_sample_witness :
  ∃ child, published (snapshot two_pages earlier) earlier !! child = Some 1
    ∧ child !! 0%nat = Some "CVE-2" ∧ child !! 1%nat = Some "LOW".
Proof.
  assert (Hfront : Forall (λ out, is_Some (ecr.NextToken out)) [page_1]).
  { repeat constructor. exists "tok1". reflexivity. }
  destruct (X9_every_finding_has_a_sample [page_1] page_2 [] earlier Hfront eq_refl)
    as (Hall & _).
  apply (Hall CVE_2). right. left.
Defined.

(** X10.  While every tick's fetch succeeds the refresh loop goes on, and
    after each tick the vector holds the samples of that tick's records
    alone, whatever earlier ticks had published. *)
Theorem X10_vector_holds_last_tick_only
    (ticks : list (list ecr.response)) (script : list ecr.response)
    (findingsInfos : list findingsInfo) (m : prometheus.metrics) :
  Forall (λ tick, ∃ infos, fetches tick infos) ticks →
  fetches script findingsInfos →
  ∃ M, range_ticker (ticks ++ [script]) m = (M, Waiting)
    ∧ ∀ child, M !! child =
        if decide (child ∈ child_of <$> findingsInfos) then Some 1 else None.
Proof.
  intros Hticks Hscript. exists (samples findingsInfos ∅).
  split; [by apply range_ticker_fetches|].
  intros child. by rewrite samples_lookup, lookup_empty.
Qed.

Lemma X10_vector_holds_last_tick_only_witness :
  ∃ M, range_ticker [two_pages; twice] earlier = (M, Waiting)
    ∧ M !! ["CVE-2"; "LOW"; ""; ""; ""; ""] = Some 1
    ∧ M !! ["CVE-1"; "HIGH"; "1.2"; "1.2"; ""; ""] = None.
Proof.
  assert (Hticks : Forall (λ tick, ∃ infos, fetches tick infos) [two_pages]).
  { repeat constructor. eexists. reflexivity. }
  destruct (X10_vector_holds_last_tick_only [two_pages] twice _ earlier Hticks eq_refl)
    as (M & Hloop & Hlookup).
  exists M. split; [exact Hloop|]. split; rewrite Hlookup; by vm_compute.
Defined.

(** X11.  The first tick whose fetch returns an error ends the loop, and
    with it the process, in [log.Fatal] on [snapshot]'s error; the ticks
    after it are never served, and the vector is empty at that point. *)
Theorem X11_first_failed_fetch_ends_the_loop
    (ticks later : list (list ecr.response)) (script : list ecr.response)
    (findingsInfos : list findingsInfo) (err : error) (m : prometheus.metrics) :
  Forall (λ tick, ∃ infos, fetches tick infos) ticks →
  returned (getECRImageScanFindings script) = Done (findingsInfos, Some err) →
  range_ticker (ticks ++ script :: later) m
  = (∅, Exited (Errorf "failed to read ECR Image Scan Findings infos: %w" err)).
Proof. apply range_ticker_fails. Qed.

Lemma X11_first_failed_fetch_ends_the_loop_witness :
  (range_ticker [two_pages; [ecr.failed timeout]; two_pages] earlier).2
  = Exited (Errorf "failed to read ECR Image Scan Findings infos: %w"
              (Errorf "failed to describe image scan findings: %w" timeout)).
Proof.
  assert (Hticks : Forall (λ tick, ∃ infos, fetches tick infos) [two_pages]).
  { repeat constructor. eexists. reflexivity. }
  exact (f_equal snd
           (X11_first_failed_fetch_ends_the_loop
              [two_pages] [two_pages] [ecr.failed timeout] _ _ earlier Hticks eq_refl)).
Defined.

Lemma int64_range z : - 2 ^ 63 ≤ time.int64 z < 2 ^ 63.
Proof.
  unfold time.int64. change (2 ^ 63) with 9223372036854775808.
  change (2 ^ 64) with 18446744073709551616.
  pose proof (Z.mod_pos_bound (z + 9223372036854775808) 18446744073709551616).
  lia.
Qed.

(** X12.  For a value [Atoi] accepts, [main] gets a ticker whose period is
    that many seconds exactly when the value lies between 1 and 9223372036:
    below, the ticker panics or, by wrap-around, has another period, and so
    above. *)
Theorem X12_ticker_period_is_the_interval (s : string) (n : Z) :
  strconv.Atoi s = (n, None) →
  main (Some s) = Ticking n (n * 1000000000) ↔ 0 < n ≤ 9223372036.
Proof.
  intros Hn. destruct (main_Atoi s n Hn) as [_ Hmain]. rewrite Hmain.
  unfold time.Second. pose proof (int64_range (n * 1000000000)) as Hrange.
  change (2 ^ 63) with 9223372036854775808 in Hrange.
  split.
  - destruct (Z.leb_spec (time.int64 (n * 1000000000)) 0) as [|Hpos]; [done|].
    intros [= Heq]. rewrite Heq in *. lia.
  - intros Hbound.
    rewrite int64_small by (change (2 ^ 63) with 9223372036854775808; lia).
    destruct (Z.leb_spec (n * 1000000000) 0); [lia|done].
Qed.

Lemma X12_ticker_period_is_the_interval_witness :
  main (Some "60") = Ticking 60 60000000000
  ∧ main (Some "9223372037") ≠ Ticking 9223372037 9223372037000000000.
Proof.
  split.
  - apply (X12_ticker_period_is_the_interval "60" 60 eq_refl). lia.
  - intros H. apply (X12_ticker_period_is_the_interval "9223372037" 9223372037 eq_refl) in H.
    lia.
Defined.

(** X13.  [getInterval] returns either an interval and no error, and then
    one that fits an [int] of 64 bits, or the interval 0 with an error
    that wraps [Atoi]'s, which names the value of the variable and says
    whether its syntax or its range was at fault. *)
Theorem X13_interval_or_error (AWS_API_INTERVAL : option string) :
  (∃ n, getInterval AWS_API_INTERVAL = (n, None) ∧ - 2 ^ 63 ≤ n < 2 ^ 63)
  ∨ (∃ s cause, AWS_API_INTERVAL = Some s
       ∧ (cause = strconv.ErrSyntax ∨ cause = strconv.ErrRange)
       ∧ getInterval AWS_API_INTERVAL
         = (0, Some (Errorf "failed to read Datadog Config: %w"
                       (NumError "Atoi" s cause)))).
Proof.
  destruct AWS_API_INTERVAL as [s|]; [|left; exists 300; by vm_compute].
  destruct (decide (s = "")) as [->|Hs]; [left; exists 300; by vm_compute|].
  rewrite (getInterval_Atoi s Hs).
  destruct (strconv.Atoi s) as [n [e|]] eqn:HAtoi.
  - right. exists s. revert HAtoi. unfold strconv.Atoi.
    destruct (strconv.split_sign s) as [neg body].
    destruct body as [|c body];
      [intros [= <- <-]; exists strconv.ErrSyntax; split; [done | split; [by left | done]]|].
    destruct (strconv.digits (String c body) 0) as [un|];
      [|intros [= <- <-]; exists strconv.ErrSyntax; split; [done | split; [by left | done]]].
    destruct (negb neg && _);
      [intros [= <- <-]; exists strconv.ErrRange; split; [done | split; [by right | done]]|].
    destruct (neg && _); [|discriminate].
    intros [= <- <-]. exists strconv.ErrRange. split; [done | split; [by right | done]].
  - left. exists n. split; [done|]. by apply (Atoi_range s).
Qed.
